(** * c7n.manager: resource managers, filter pipelines and guarded API calls

    A shallow embedding of [c7n/manager.py]: the module-level generator
    [iter_filters] and the methods [get_resource_manager],
    [filter_resources] and [call_api] of [ResourceManager].

    Python objects are records, dictionaries are [gmap]s, the deque of
    [iter_filters] is a list whose head is the left end, and code that
    raises or touches the outside world (the tracer, the logger, the plugin
    registry) lives in a state-and-exception monad whose state survives a
    raised exception, as it does in Python. *)

From Stdlib Require Import Ascii.
From stdpp Require Import gmap strings list.

Set Warnings "-register-all".

Local Open Scope string_scope.
Local Open Scope list_scope.

(** ** Python values, exceptions and effects *)

(** The values the modelled code handles without looking inside them:
    policy fragments, API responses, event payloads. *)
Inductive value :=
| VNone
| VBool (b : bool)
| VInt (n : Z)
| VStr (s : string)
| VList (l : list value)
| VDict (kv : list (string * value)).

(** [bool(v)] *)
Definition truthy (v : value) : bool :=
  match v with
  | VNone => false
  | VBool b => b
  | VInt n => negb (n =? 0)%Z
  | VStr s => negb (String.eqb s EmptyString)
  | VList l => negb (bool_decide (length l = 0))
  | VDict kv => negb (bool_decide (length kv = 0))
  end.

(** A dictionary with string keys: a policy fragment ([data]) or the [event]
    handed to the filters. *)
Abbreviation dict := (gmap string value).

(** [bool(d)] for [d] that is [None] or a dictionary: [None] and [{}] are
    falsy. *)
Definition dict_truthy (d : option dict) : bool :=
  match d with
  | None => false
  | Some m => negb (bool_decide (m = ∅))
  end.

(** [d.get(key, False)], then taken as a condition. *)
Definition dict_get_flag (key : string) (d : dict) : bool :=
  match d !! key with
  | Some v => truthy v
  | None => false
  end.

(** Exceptions.  [ClientError] is botocore's; its [code] is
    [e.response['Error']['Code']], the rest of the response and the
    operation name are kept so that re-raising can be seen to keep them.
    Every other exception class is an [Exception] with its class name. *)
Inductive exn :=
| ClientError (code : string) (message : string) (operation_name : string)
| Exception (class_name : string) (arg : string).

Definition ValueError (arg : string) : exn := Exception "ValueError" arg.
Definition KeyError (arg : string) : exn := Exception "KeyError" arg.

Inductive outcome (A : Type) :=
| Return (a : A)
| Raise (e : exn).
Arguments Return {A} a.
Arguments Raise {A} e.

(** What the code does to the world around it, in the order it does it. *)
Inductive effect :=
| LogFiltering (filter_types : list string)
    (* log.info("Filtering resources with %s", self.filters) *)
| LogApplied (filter_type : string) (rcount after : nat)
    (* log.debug("applied filter %s %d->%d", f, rcount, len(resources)) *)
| LogFiltered (original final : nat)
    (* log.debug("Filtered from %d to %d %s" % ...) *)
| Subsegment (name : string)
    (* with self.ctx.tracer.subsegment(name): ... *)
| LoadResources (resource_types : list string)
    (* load_resources(resource_types) *)
| Construct (class_name : string) (provider_name : string) (data : dict)
    (* klass(ctx, data) *)
| External (tag : string) (payload : value).
    (* whatever a filter's process or an API function does itself *)

Abbreviation trace := (list effect).

(** ** The monad: state that survives exceptions *)

Definition M (S A : Type) : Type := S → outcome A * S.

Definition ret {S A} (a : A) : M S A := fun s => (Return a, s).
Definition raise {S A} (e : exn) : M S A := fun s => (Raise e, s).
Definition bind {S A B} (m : M S A) (k : A → M S B) : M S B :=
  fun s => match m s with
           | (Return a, s') => k a s'
           | (Raise e, s') => (Raise e, s')
           end.
Definition emit (e : effect) : M trace unit :=
  fun tr => (Return tt, tr ++ [e]).
Definition when {S} (c : bool) (m : M S unit) : M S unit :=
  if c then m else ret tt.

#[global] Instance M_ret {S} : MRet (M S) := @ret S.
#[global] Instance M_bind {S} : MBind (M S) := fun A B k m => bind m k.

(** ** Filters *)

Section Filters.
Variable Resource : Type.

(** A filter object: [f.type], [f.filters] (read by the code only when the
    type is a boolean operator) and [f.process(resources, event)]. *)
Inductive Filter := mkFilter {
  type : string;
  filters : list Filter;
  process : list Resource → option dict → M trace (list Resource)
}.

(** [f.type in ('or', 'and', 'not')] *)
Definition is_block (f : Filter) : bool :=
  bool_decide (type f ∈ ["or"; "and"; "not"]).

(** One turn of the [while queue] loop of [iter_filters] after
    [f = queue.popleft()]: the queue it leaves.  [None] is the block-end
    marker. *)
Definition iter_filters_push (block_end : bool) (f : option Filter)
    (queue : list (option Filter)) : list (option Filter) :=
  match f with
  | Some f' =>
      if is_block f' then
        let queue := if block_end then None :: queue else queue in
        fold_left (fun q gf => Some gf :: q) (filters f') queue
      else queue
  | None => queue
  end.

(** The loop, with the values it yields collected in order.  [fuel] bounds
    the number of turns; [None] means the bound was hit with the queue
    still non-empty. *)
Fixpoint iter_filters_loop (fuel : nat) (block_end : bool)
    (queue : list (option Filter)) {struct fuel} : option (list (option Filter)) :=
  match queue with
  | [] => Some []
  | f :: queue =>
      match fuel with
      | 0 => None
      | S fuel =>
          cons f <$> iter_filters_loop fuel block_end (iter_filters_push block_end f queue)
      end
  end.

(** [iter_filters(filters, block_end)]: [queue = deque(filters)]. *)
Definition iter_filters (fuel : nat) (filters : list Filter) (block_end : bool)
    : option (list (option Filter)) :=
  iter_filters_loop fuel block_end (Some <$> filters).

End Filters.

Arguments mkFilter {Resource} type filters process.
Arguments type {Resource} f.
Arguments filters {Resource} f.
Arguments process {Resource} f resources event.
Arguments is_block {Resource} f.
Arguments iter_filters_push {Resource} block_end f queue.
Arguments iter_filters_loop {Resource} fuel block_end queue.
Arguments iter_filters {Resource} fuel filters block_end.

(** ** Strings: the two operations [get_resource_manager] uses *)

(** [c in s] for a one-character [c]. *)
Fixpoint str_contains (c : ascii) (s : string) : bool :=
  match s with
  | EmptyString => false
  | String a s' => if Ascii.eqb a c then true else str_contains c s'
  end.

(** [s.split(c, 1)] for an [s] that contains [c], as the pair it is unpacked
    into: the text before the first [c] and the text after it.  (For an [s]
    without [c] Python returns the one-element list [[s]]; the code never
    splits such a string, and the pair here is then [s] and the empty string.) *)
Fixpoint split_once (c : ascii) (s : string) : string * string :=
  match s with
  | EmptyString => (EmptyString, EmptyString)
  | String a s' =>
      if Ascii.eqb a c then (EmptyString, s')
      else let '(before, after) := split_once c s' in (String a before, after)
  end.

(** ['%s.%s' % (provider_name, resource_type)] *)
Definition qualified (provider_name resource_type : string) : string :=
  provider_name +:+ "." +:+ resource_type.

(** ** Resource managers *)

Section Manager.
Variable Resource : Type.

(** [ctx]: the execution context.  The methods modelled here read
    [ctx.policy.provider_name]; the tracer of the context shows up as
    [Subsegment] effects. *)
Record Policy := { provider_name : string }.
Record ExecutionContext := { policy : Policy }.

(** The resource meta-model ([self.resource_type], [klass.get_model()]).
    [config_type] is what [getattr(model, 'config_type', None)] gives:
    [VNone] when the attribute is missing or is [None]. *)
Record TypeInfo := {
  config_type : value;
  not_found_exceptions : list string
}.

(** An instance of [ResourceManager] or of a subclass of it.
    [self_filters] is [self.filters]. *)
Record ResourceManager := {
  class_name : string;
  ctx : ExecutionContext;
  data : dict;
  source_type : string;
  resource_type : TypeInfo;
  self_filters : list (Filter Resource)
}.

(** A resource manager class, as the registry holds it: [klass.get_model()]
    and the call [klass(ctx, data)]. *)
Record Klass := {
  klass_name : string;
  get_model : TypeInfo;
  construct : ExecutionContext → dict → ResourceManager
}.

(** [clouds]: provider name to provider, of which the code reads
    [.resources], a registry from resource type name to class. *)
Record World := {
  clouds : gmap string (gmap string Klass);
  effects : trace
}.

(** [c7n.resources.load_resources] is not part of this module: it may
    register classes, and is taken as a function on the registry. *)
Variable load_resources :
  list string → gmap string (gmap string Klass) → gmap string (gmap string Klass).

Definition call_load_resources (resource_types : list string) : M World unit :=
  fun w => (Return tt,
            {| clouds := load_resources resource_types (clouds w);
               effects := effects w ++ [LoadResources resource_types] |}).

(** [clouds[provider_name].resources] *)
Definition cloud_resources (provider_name : string) : M World (gmap string Klass) :=
  fun w => match clouds w !! provider_name with
           | Some provider_resources => (Return provider_resources, w)
           | None => (Raise (KeyError provider_name), w)
           end.

(** [klass(ctx, data)] *)
Definition new (klass : Klass) (ctx : ExecutionContext) (data : dict)
    : M World ResourceManager :=
  fun w => (Return (construct klass ctx data),
            {| clouds := clouds w;
               effects := effects w
                 ++ [Construct (klass_name klass) (provider_name (policy ctx)) data] |}).

(** Lines 94-97: the provider and the resource type a specifier names. *)
Definition split_resource_type (self : ResourceManager) (resource_type : string)
    : string * string :=
  if str_contains "."%char resource_type then split_once "."%char resource_type
  else (provider_name (policy (ctx self)), resource_type).

(** [data or {}] *)
Definition data_or_empty (data : option dict) : dict :=
  match data with
  | Some d => if dict_truthy data then d else ∅
  | None => ∅
  end.

Definition get_resource_manager (self : ResourceManager) (resource_type : string)
    (data : option dict) : M World ResourceManager :=
  let '(provider_name, resource_type) := split_resource_type self resource_type in
  call_load_resources [qualified provider_name resource_type] ;;
  provider_resources ← cloud_resources provider_name ;
  match provider_resources !! resource_type with
  | None => raise (ValueError resource_type)
  | Some klass =>
      if negb (dict_truthy data)
         && String.eqb (source_type self) "config"
         && truthy (config_type (get_model klass))
      then new klass (ctx self) {[ "source" := VStr (source_type self) ]}
      else new klass (ctx self) (data_or_empty data)
  end.

(** [event and event.get('debug', False)] *)
Definition debug (event : option dict) : bool :=
  dict_truthy event && from_option (dict_get_flag "debug") false event.

(** The [for f in self.filters] loop of [filter_resources]. *)
Fixpoint for_filters (fs : list (Filter Resource)) (resources : list Resource)
    (event : option dict) : M trace (list Resource) :=
  match fs with
  | [] => mret resources
  | f :: fs =>
      match resources with
      | [] => mret resources                       (* if not resources: break *)
      | _ :: _ =>
          let rcount := length resources in
          emit (Subsegment ("filter:" +:+ type f)) ;;
          resources ← process f resources event ;
          when (debug event) (emit (LogApplied (type f) rcount (length resources))) ;;
          for_filters fs resources event
      end
  end.

Definition filter_resources (self : ResourceManager) (resources : list Resource)
    (event : option dict) : M trace (list Resource) :=
  let original := length resources in
  when (debug event) (emit (LogFiltering (type <$> self_filters self))) ;;
  resources ← for_filters (self_filters self) resources event ;
  emit (LogFiltered original (length resources)) ;;
  mret resources.

(** [call_api(func, *args, ignore_not_found, not_found_codes, **kwargs)] *)
Definition call_api (self : ResourceManager)
    (func : list value → dict → M trace value) (args : list value)
    (ignore_not_found : bool) (not_found_codes : option (list string))
    (kwargs : dict) : M trace value :=
  let not_found_codes :=
    match not_found_codes with
    | None => not_found_exceptions (resource_type self)
    | Some codes => codes
    end in
  fun tr =>
    match func args kwargs tr with
    | (Return v, tr') => (Return v, tr')
    | (Raise (ClientError code message operation_name), tr') =>
        if negb ignore_not_found || negb (bool_decide (code ∈ not_found_codes))
        then (Raise (ClientError code message operation_name), tr')
        else (Return VNone, tr')
    | (Raise e, tr') => (Raise e, tr')
    end.

End Manager.

Arguments provider_name p : rename.
Arguments policy e : rename.
Arguments config_type t : rename.
Arguments not_found_exceptions t : rename.
Arguments class_name {Resource} r.
Arguments ctx {Resource} r.
Arguments data {Resource} r.
Arguments source_type {Resource} r.
Arguments resource_type {Resource} r.
Arguments self_filters {Resource} r.
Arguments klass_name {Resource} k.
Arguments get_model {Resource} k.
Arguments construct {Resource} k ctx data.
Arguments clouds {Resource} w.
Arguments effects {Resource} w.
Arguments call_load_resources {Resource} load_resources resource_types.
Arguments cloud_resources {Resource} provider_name.
Arguments new {Resource} klass ctx data.
Arguments split_resource_type {Resource} self resource_type.
Arguments get_resource_manager {Resource} load_resources self resource_type data.
Arguments for_filters {Resource} fs resources event.
Arguments filter_resources {Resource} self resources event.
Arguments call_api {Resource} self func args ignore_not_found not_found_codes kwargs.

(** ** The linearization, as a recursive function

    What [iter_filters] is meant to yield, written by recursion on the filter
    tree: a filter, then (for a boolean operator) its children from the last
    declared to the first, each with everything below it, then the block-end
    marker when one is asked for. *)

Section Linearize.
Context {Resource : Type}.

Fixpoint expand (block_end : bool) (f : Filter Resource) : list (option (Filter Resource)) :=
  match f with
  | mkFilter t children _ =>
      Some f ::
      (if bool_decide (t ∈ ["or"; "and"; "not"]) then
         (fix backwards (l : list (Filter Resource)) :=
            match l with
            | [] => []
            | child :: l' => backwards l' ++ expand block_end child
            end) children
         ++ (if block_end then [None] else [])
       else [])
  end.

Definition linearize (block_end : bool) (fs : list (Filter Resource))
    : list (option (Filter Resource)) :=
  flat_map (expand block_end) fs.

(** The number of values the traversal yields: one per filter in the tree
    below a chain of boolean operators, and one more per boolean operator
    when block ends are marked. *)
Fixpoint yields (block_end : bool) (f : Filter Resource) : nat :=
  match f with
  | mkFilter t children _ =>
      S (if bool_decide (t ∈ ["or"; "and"; "not"]) then
           (fix total (l : list (Filter Resource)) :=
              match l with
              | [] => 0
              | child :: l' => yields block_end child + total l'
              end) children
           + (if block_end then 1 else 0)
         else 0)
  end.

Definition yields_all (block_end : bool) (fs : list (Filter Resource)) : nat :=
  list_sum (yields block_end <$> fs).

(** A queue entry expanded: the marker stands for itself. *)
Definition expand_entry (block_end : bool) (e : option (Filter Resource))
    : list (option (Filter Resource)) :=
  match e with
  | Some f => expand block_end f
  | None => [None]
  end.

End Linearize.

(** ** Vocabulary of the properties *)

Section Vocabulary.
Context {Resource : Type}.

(** Induction on filter trees: a property of the children gives the
    property of the parent. *)
Section Filter_tree_ind.
Variable P : Filter Resource → Prop.
Hypothesis Hnode : ∀ t children p, Forall P children → P (mkFilter t children p).

Fixpoint Filter_tree_ind (f : Filter Resource) : P f :=
  match f with
  | mkFilter t children p =>
      Hnode t children p
        ((fix all (l : list (Filter Resource)) : Forall P l :=
            match l with
            | [] => @List.Forall_nil _ P
            | c :: l' => @List.Forall_cons _ P c l' (Filter_tree_ind c) (all l')
            end) children)
  end.
End Filter_tree_ind.

(** A filter narrows: whenever its [process] returns, what it returns has
    no element that was not in its input, and is no longer than its input. *)
Definition narrows (f : Filter Resource) : Prop :=
  ∀ resources event tr out tr',
    process f resources event tr = (Return out, tr') →
    out ⊆ resources ∧ (length out ≤ length resources)%nat.

(** The effects of [filter_resources] before its loop. *)
Definition prelude (self : ResourceManager Resource) (event : option dict) : trace :=
  if debug event then [LogFiltering (type <$> self_filters self)] else [].

Variable load_resources :
  list string → gmap string (gmap string (Klass Resource))
  → gmap string (gmap string (Klass Resource)).

(** The world after [load_resources] was called for [p.r]. *)
Definition loaded (p r : string) (w : World Resource) : World Resource :=
  {| clouds := load_resources [qualified p r] (clouds w);
     effects := effects w ++ [LoadResources [qualified p r]] |}.

(** The world after [klass(ctx, definition)]. *)
Definition constructed (klass : Klass Resource) (c : ExecutionContext)
    (definition : dict) (w : World Resource) : World Resource :=
  {| clouds := clouds w;
     effects := effects w
       ++ [Construct (klass_name klass) (provider_name (policy c)) definition] |}.

(** The definition a call with no usable definition of its own passes on
    when the caller reads from config. *)
Definition config_definition : dict := {[ "source" := VStr "config" ]}.

End Vocabulary.

Arguments loaded {Resource} load_resources p r w.

(** ** The other methods of [ResourceManager]

    The methods below take nothing from outside the module.  [__init__],
    [format_json] and [get_model] hand their work to the registries, to
    [c7n.utils.dumps] and to [self.query], which are not part of it. *)

Section Methods.
Context {Resource : Type}.

(** [match_ids(ids)] *)
Definition match_ids (self : ResourceManager Resource) (ids : list string) : list string :=
  ids.

(** [get_permissions()] *)
Definition get_permissions : list string := [].

(** [get_resources(resource_ids)] *)
Definition get_resources (self : ResourceManager Resource) (resource_ids : list string)
    : list Resource :=
  [].

(** [resources()] *)
Definition resources (self : ResourceManager Resource) : M trace (list Resource) :=
  raise (Exception "NotImplementedError" EmptyString).

(** The method [iter_filters(block_end)]: the generator on [self.filters]. *)
Definition self_iter_filters (fuel : nat) (self : ResourceManager Resource)
    (block_end : bool) : option (list (option (Filter Resource))) :=
  iter_filters fuel (self_filters self) block_end.

(** [validate()] *)
Definition validate (self : ResourceManager Resource) : value := VNone.

End Methods.

(** ** More vocabulary *)

Section Reading.
Context {Resource : Type}.

(** The filters a traversal can come to: those of the sequence, and the
    children of a boolean operator it can come to. *)
Inductive reaches (fs : list (Filter Resource)) : Filter Resource → Prop :=
| reaches_top g : g ∈ fs → reaches fs g
| reaches_child a g :
    reaches fs a → is_block a = true → g ∈ filters a → reaches fs g.

(** Reading a yielded sequence as brackets: a boolean operator opens a
    block, the marker closes the innermost open one.  The result is the
    number of blocks left open, or [None] when a marker closes nothing. *)
Fixpoint blocks (depth : nat) (out : list (option (Filter Resource))) : option nat :=
  match out with
  | [] => Some depth
  | Some f :: out => blocks (if is_block f then S depth else depth) out
  | None :: out =>
      match depth with
      | 0 => None
      | S depth => blocks depth out
      end
  end.

(** A filter whose [process] is the function [g] and nothing else: no
    effect, no exception, no look at the event. *)
Definition computes (f : Filter Resource) (g : list Resource → list Resource) : Prop :=
  ∀ resources event tr, process f resources event tr = (Return (g resources), tr).

End Reading.

(** ** Sample data

    Concrete filters, classes and registries on which the properties below
    are exercised.  Resources are named by strings here. *)

Definition leaf (t : string) : Filter string :=
  mkFilter t [] (λ resources _, mret resources).

Definition sample_f1 : Filter string := leaf "value".
Definition sample_f2 : Filter string := leaf "tag-count".
Definition sample_and : Filter string :=
  mkFilter "and" [sample_f1; sample_f2] (λ resources _, mret resources).
Definition sample_nested : Filter string :=
  mkFilter "or" [sample_and; leaf "age"; mkFilter "not" [leaf "state"] (λ resources _, mret resources)]
    (λ resources _, mret resources).

Definition sample_ctx : ExecutionContext := {| policy := {| provider_name := "aws" |} |}.

Definition ec2_model : TypeInfo :=
  {| config_type := VStr "AWS::EC2::Instance";
     not_found_exceptions := ["InvalidInstanceID.NotFound"] |}.
Definition sg_model : TypeInfo :=
  {| config_type := VNone; not_found_exceptions := ["InvalidGroup.NotFound"] |}.

(** A filter that drops the resource [r] and leaves a mark of having run. *)
Definition dropping (name r : string) : Filter string :=
  mkFilter name []
    (λ resources _ tr,
       (Return (filter (λ x, x ≠ r) resources), tr ++ [External name (VStr r)])).

(** A filter that raises. *)
Definition broken : Filter string :=
  mkFilter "broken" [] (λ _ _, raise (Exception "RuntimeError" "boom")).

(** A class whose instances keep the context and the definition they are
    built from, and read their source from the definition. *)
Definition sample_class (name : string) (model : TypeInfo) : Klass string :=
  {| klass_name := name;
     get_model := model;
     construct := λ c d,
       {| class_name := name; ctx := c; data := d;
          source_type := match d !! "source" with
                         | Some (VStr s) => s
                         | _ => "describe"
                         end;
          resource_type := model;
          self_filters := [] |} |}.

Definition EC2 : Klass string := sample_class "EC2" ec2_model.
Definition SecurityGroup : Klass string := sample_class "SecurityGroup" sg_model.
Definition EBS : Klass string := sample_class "EBS" ec2_model.

Definition sample_clouds : gmap string (gmap string (Klass string)) :=
  {[ "aws" := {[ "ec2" := EC2; "security-group" := SecurityGroup ]} ]}.

(** A loader that registers [aws.ebs] the first time it is asked for. *)
Definition sample_load_resources (resource_types : list string)
    (registry : gmap string (gmap string (Klass string)))
    : gmap string (gmap string (Klass string)) :=
  if bool_decide ("aws.ebs" ∈ resource_types)
  then alter (insert "ebs" EBS) "aws" registry
  else registry.

Definition sample_world : World string := {| clouds := sample_clouds; effects := [] |}.

Definition sample_manager (source : string) (fs : list (Filter string))
    : ResourceManager string :=
  {| class_name := "SecurityGroup"; ctx := sample_ctx; data := ∅;
     source_type := source; resource_type := sg_model; self_filters := fs |}.

(** API functions: one that answers, one that does not find its target. *)
Definition sample_group : list value := [VStr "sg-1"].
Definition sample_missing : exn :=
  ClientError "InvalidGroup.NotFound" "no such group" "DescribeSecurityGroups".
Definition describe_ok (args : list value) (kwargs : dict) : M trace value :=
  λ tr, (Return (VList args), tr ++ [External "describe" (VList args)]).
Definition describe_missing (args : list value) (kwargs : dict) : M trace value :=
  λ tr, (Raise sample_missing, tr ++ [External "describe" (VList args)]).

(** A filter that keeps the resources other than [r], and does nothing
    else. *)
Definition keeping (name r : string) : Filter string :=
  mkFilter name [] (λ resources _, mret (filter (λ x, x ≠ r) resources)).

(** A filter that is no boolean operator, and still holds filters. *)
Definition sample_holder : Filter string :=
  mkFilter "event" [sample_f1; sample_and] (λ resources _, mret resources).

(** * Properties *)

(** ** [iter_filters] *)

Section IterFilters.
Context {Resource : Type}.
Implicit Types (f : Filter Resource) (fs : list (Filter Resource)).
Implicit Types (queue : list (option (Filter Resource))).

Lemma expand_eq block_end f :
  expand block_end f =
  Some f :: (if is_block f
             then flat_map (expand block_end) (rev (filters f))
                  ++ (if block_end then [None] else [])
             else []).
Proof.
  destruct f as [t children p]. unfold is_block. simpl.
  f_equal. case_bool_decide; [|done]. f_equal.
  induction children as [|c cs IH]; [done|].
  simpl. rewrite flat_map_app. simpl. rewrite app_nil_r. by rewrite IH.
Qed.

Lemma yields_eq block_end f :
  yields block_end f =
  S (if is_block f
     then yields_all block_end (filters f) + (if block_end then 1 else 0)
     else 0).
Proof.
  destruct f as [t children p]. unfold is_block, yields_all. simpl.
  f_equal. case_bool_decide; [|done]. f_equal.
  induction children as [|c cs IH]; [done|]. simpl. by rewrite IH.
Qed.

Lemma yields_all_cons block_end f fs :
  yields_all block_end (f :: fs) = yields block_end f + yields_all block_end fs.
Proof. reflexivity. Qed.

Lemma length_expand block_end f :
  length (expand block_end f) = yields block_end f.
Proof.
  induction f as [t children p IH] using Filter_tree_ind.
  rewrite expand_eq, yields_eq. cbn [length filters]. f_equal.
  destruct (is_block _); [|done]. rewrite length_app.
  f_equal; [|by destruct block_end].
  induction IH as [|c cs Hc _ IHcs]; [done|].
  cbn [rev]. rewrite flat_map_app, length_app, IHcs, yields_all_cons.
  cbn [flat_map]. rewrite app_nil_r, Hc. lia.
Qed.

Lemma length_linearize block_end fs :
  length (linearize block_end fs) = yields_all block_end fs.
Proof.
  unfold linearize. induction fs as [|f fs IH]; [done|].
  cbn [flat_map]. by rewrite length_app, IH, length_expand, yields_all_cons.
Qed.

Lemma fold_left_appendleft (l : list (Filter Resource)) queue :
  fold_left (λ q gf, Some gf :: q) l queue = (Some <$> rev l) ++ queue.
Proof.
  revert queue. induction l as [|c l IH]; intros queue; [done|].
  cbn [fold_left rev]. rewrite IH, fmap_app, <- app_assoc. done.
Qed.

Lemma iter_filters_push_eq block_end f queue :
  iter_filters_push block_end (Some f) queue =
  if is_block f
  then (Some <$> rev (filters f)) ++ (if block_end then [None] else []) ++ queue
  else queue.
Proof.
  unfold iter_filters_push. destruct (is_block f); [|done].
  rewrite fold_left_appendleft. by destruct block_end.
Qed.

Lemma flat_map_expand_entry block_end fs :
  flat_map (expand_entry block_end) (Some <$> fs) = linearize block_end fs.
Proof.
  unfold linearize. induction fs as [|f fs IH]; [done|].
  cbn [fmap list_fmap flat_map expand_entry]. by rewrite <- IH.
Qed.

(** One turn of the loop, seen on the expansion of the queue: the entry at
    the front is yielded, and what it pushed expands to the rest. *)
Lemma expand_queue_step block_end (e : option (Filter Resource)) queue :
  flat_map (expand_entry block_end) (e :: queue) =
  e :: flat_map (expand_entry block_end) (iter_filters_push block_end e queue).
Proof.
  destruct e as [f|]; [|done].
  rewrite iter_filters_push_eq. cbn [flat_map expand_entry]. rewrite expand_eq.
  destruct (is_block f); [|done].
  rewrite !flat_map_app, flat_map_expand_entry. unfold linearize.
  cbn [app]. rewrite <- app_assoc. by destruct block_end.
Qed.

(** The loop yields the expansion of its queue, entry by entry, as soon as
    the fuel covers the number of values to yield. *)
Lemma iter_filters_loop_spec block_end (fuel : nat) : ∀ queue,
  (length (flat_map (expand_entry block_end) queue) ≤ fuel)%nat →
  iter_filters_loop fuel block_end queue = Some (flat_map (expand_entry block_end) queue).
Proof.
  induction fuel as [|fuel IH]; intros [|e queue] Hfuel; try done.
  - rewrite expand_queue_step in Hfuel. cbn [length] in Hfuel. lia.
  - rewrite expand_queue_step in Hfuel |- *. cbn [length] in Hfuel.
    cbn [iter_filters_loop]. rewrite IH; [done | lia].
Qed.

(** With too little fuel the loop does not finish. *)
Lemma iter_filters_loop_short block_end (fuel : nat) : ∀ queue,
  (fuel < length (flat_map (expand_entry block_end) queue))%nat →
  iter_filters_loop fuel block_end queue = None.
Proof.
  induction fuel as [|fuel IH]; intros [|e queue] Hfuel; try done.
  - cbn [flat_map length] in Hfuel. lia.
  - cbn [flat_map length] in Hfuel. lia.
  - rewrite expand_queue_step in Hfuel. cbn [length] in Hfuel.
    cbn [iter_filters_loop]. rewrite IH; [done | lia].
Qed.

Lemma iter_filters_spec (fuel : nat) fs block_end :
  (yields_all block_end fs ≤ fuel)%nat →
  iter_filters fuel fs block_end = Some (linearize block_end fs).
Proof.
  intros Hfuel. unfold iter_filters.
  rewrite iter_filters_loop_spec; rewrite flat_map_expand_entry; [done|].
  by rewrite length_linearize.
Qed.

(** The recursive reading of the linearization: a filter, then the children
    of a boolean operator last declared first, then the marker, then the
    filters that follow it in the sequence. *)
Lemma linearize_cons block_end f fs :
  linearize block_end (f :: fs) =
  Some f :: (if is_block f
             then linearize block_end (rev (filters f))
                  ++ (if block_end then [None] else [])
             else [])
         ++ linearize block_end fs.
Proof. unfold linearize. cbn [flat_map]. by rewrite expand_eq. Qed.

(** C1. [iter_filters] yields every filter followed, when it is a boolean
    operator, by its children from the last declared to the first, each
    child with its own expansion before the siblings declared earlier, and,
    with [block_end], by the marker [None] after the whole block: the
    sequence yielded is [linearize block_end fs].  For an operator [a] with
    the two leaves [f1; f2] the sequences are [a, f2, f1, None] and
    [a, f2, f1]. *)
Theorem iter_filters_linearization :
  (∀ (fs : list (Filter Resource)) (block_end : bool) (fuel : nat),
     (yields_all block_end fs ≤ fuel)%nat →
     iter_filters fuel fs block_end = Some (linearize block_end fs))
  ∧ (∀ (a f1 f2 : Filter Resource) (fuel : nat),
       is_block a = true → filters a = [f1; f2] →
       is_block f1 = false → is_block f2 = false → (4 ≤ fuel)%nat →
       iter_filters fuel [a] true = Some [Some a; Some f2; Some f1; None])
  ∧ (∀ (a f1 f2 : Filter Resource) (fuel : nat),
       is_block a = true → filters a = [f1; f2] →
       is_block f1 = false → is_block f2 = false → (3 ≤ fuel)%nat →
       iter_filters fuel [a] false = Some [Some a; Some f2; Some f1]).
Proof.
  split; [intros; by apply iter_filters_spec|].
  split; intros a f1 f2 fuel Ha Hch H1 H2 Hfuel.
  - rewrite iter_filters_spec.
    + rewrite !linearize_cons, Ha, Hch. cbn [rev app].
      rewrite !linearize_cons, H1, H2. done.
    + unfold yields_all. cbn [fmap list_fmap list_sum].
      rewrite yields_eq, Ha, Hch. unfold yields_all. cbn [fmap list_fmap list_sum].
      rewrite !yields_eq, H1, H2. simpl. lia.
  - rewrite iter_filters_spec.
    + rewrite !linearize_cons, Ha, Hch. cbn [rev app].
      rewrite !linearize_cons, H1, H2. done.
    + unfold yields_all. cbn [fmap list_fmap list_sum].
      rewrite yields_eq, Ha, Hch. unfold yields_all. cbn [fmap list_fmap list_sum].
      rewrite !yields_eq, H1, H2. simpl. lia.
Qed.

(** C9. On a filter tree (finite and without cycles, as every value of
    [Filter] is) the loop of [iter_filters] ends, for both values of
    [block_end]: after [yields_all block_end fs] turns the queue is empty,
    and that many values have been yielded. *)
Theorem iter_filters_terminates (fs : list (Filter Resource)) (block_end : bool) (fuel : nat) :
  (yields_all block_end fs ≤ fuel)%nat →
  ∃ out, iter_filters fuel fs block_end = Some out
         ∧ length out = yields_all block_end fs.
Proof.
  intros Hfuel. exists (linearize block_end fs).
  split; [by apply iter_filters_spec | apply length_linearize].
Qed.

End IterFilters.

(** ** [filter_resources] *)

Section FilterResources.
Context {Resource : Type}.
Implicit Types (f : Filter Resource) (fs : list (Filter Resource)).
Implicit Types (self : ResourceManager Resource) (resources out : list Resource).
Implicit Types (event : option dict) (tr : trace).

Lemma filter_resources_eq self resources event tr :
  filter_resources self resources event tr =
  match for_filters (self_filters self) resources event (tr ++ prelude self event) with
  | (Return out, tr') => (Return out, tr' ++ [LogFiltered (length resources) (length out)])
  | (Raise e, tr') => (Raise e, tr')
  end.
Proof.
  unfold filter_resources, prelude, mbind, M_bind, bind, when, emit, ret.
  destruct (debug event); [|rewrite app_nil_r];
    by destruct (for_filters _ _ _ _) as [[out|e] tr'].
Qed.

Lemma for_filters_cons f fs resources event tr :
  resources ≠ [] →
  for_filters (f :: fs) resources event tr =
  match process f resources event (tr ++ [Subsegment ("filter:" +:+ type f)]) with
  | (Return out, tr') =>
      for_filters fs out event
        (tr' ++ if debug event then [LogApplied (type f) (length resources) (length out)] else [])
  | (Raise e, tr') => (Raise e, tr')
  end.
Proof.
  intros Hne. destruct resources as [|r rs]; [done|].
  cbn [for_filters]. unfold mbind, M_bind, bind, emit.
  destruct (process f _ _ _) as [[out|e] tr']; [|done].
  unfold when, ret. destruct (debug event); [done|]. by rewrite app_nil_r.
Qed.

Lemma for_filters_empty fs event tr :
  for_filters fs [] event tr = (Return [], tr).
Proof. by destruct fs. Qed.

Lemma for_filters_narrows fs : ∀ resources event tr,
  Forall narrows fs →
  match for_filters fs resources event tr with
  | (Return out, _) => out ⊆ resources ∧ (length out ≤ length resources)%nat
  | (Raise e, _) =>
      ∃ f input tr1 tr2, f ∈ fs ∧ process f input event tr1 = (Raise e, tr2)
  end.
Proof.
  induction fs as [|f fs IH]; intros resources event tr Hfs.
  { simpl. done. }
  destruct resources as [|r rs]; [by rewrite for_filters_empty|].
  rewrite for_filters_cons by done.
  apply Forall_cons in Hfs as [Hf Hfs].
  destruct (process f _ _ _) as [[out|e] tr'] eqn:Hp.
  - specialize (IH out event
      (tr' ++ if debug event then [LogApplied (type f) (length (r :: rs)) (length out)] else [])
      Hfs).
    destruct (Hf _ _ _ _ _ Hp) as [Hsub Hlen].
    destruct (for_filters fs out event _) as [[out'|e] tr''].
    + destruct IH as [Hsub' Hlen']. split; [set_solver | lia].
    + destruct IH as (g & input & tr1 & tr2 & Hg & Hraise).
      exists g, input, tr1, tr2. split; [set_solver | done].
  - exists f, (r :: rs), (tr ++ [Subsegment ("filter:" +:+ type f)]), tr'.
    split; [set_solver | done].
Qed.

(** Once the filters of [pre] have emptied the working set, the filters
    after them add nothing: the loop ends as it does on [pre] alone. *)
Lemma for_filters_exhausted pre post : ∀ resources event tr tr',
  for_filters pre resources event tr = (Return [], tr') →
  for_filters (pre ++ post) resources event tr = (Return [], tr').
Proof.
  induction pre as [|f pre IH]; intros resources event tr tr' Hpre.
  { simpl in Hpre. unfold mret, M_ret, ret in Hpre. simplify_eq.
    apply for_filters_empty. }
  destruct resources as [|r rs].
  { rewrite for_filters_empty in Hpre. simplify_eq. apply for_filters_empty. }
  rewrite <- app_comm_cons. rewrite for_filters_cons in Hpre |- * by done.
  destruct (process f _ _ _) as [[out|e] tr1]; [|done].
  by apply IH.
Qed.

(** C5. When every filter of the chain narrows, [filter_resources] returns
    a narrowing of its input: no element that is not in [resources], and no
    more elements than [resources] has.  It raises only an exception that a
    filter of the chain raised. *)
Theorem filter_resources_subset self resources event tr :
  Forall narrows (self_filters self) →
  match filter_resources self resources event tr with
  | (Return out, _) => out ⊆ resources ∧ (length out ≤ length resources)%nat
  | (Raise e, _) =>
      ∃ f input tr1 tr2,
        f ∈ self_filters self ∧ process f input event tr1 = (Raise e, tr2)
  end.
Proof.
  intros Hfs. rewrite filter_resources_eq.
  pose proof (for_filters_narrows (self_filters self) resources event
                (tr ++ prelude self event) Hfs) as H.
  by destruct (for_filters _ _ _ _) as [[out|e] tr'].
Qed.

(** C6. With an empty working set no filter is run and the empty list is
    returned: from the start (the effects are the log records alone), and
    from the point where the filters [pre] have emptied it (the effects are
    those of running [pre], then the closing log record; the filters [post]
    that follow leave no trace, not even the tracer segment that precedes
    every call of [process]). *)
Theorem filter_resources_short_circuit :
  (∀ self event tr,
     filter_resources self [] event tr
     = (Return [], tr ++ prelude self event ++ [LogFiltered 0 0]))
  ∧ (∀ self pre post resources event tr tr',
       self_filters self = pre ++ post →
       for_filters pre resources event (tr ++ prelude self event) = (Return [], tr') →
       filter_resources self resources event tr
       = (Return [], tr' ++ [LogFiltered (length resources) 0])).
Proof.
  split.
  - intros self event tr. rewrite filter_resources_eq, for_filters_empty.
    by rewrite <- app_assoc.
  - intros self pre post resources event tr tr' Hfs Hpre.
    rewrite filter_resources_eq, Hfs.
    by rewrite (for_filters_exhausted pre post _ _ _ _ Hpre).
Qed.

(** C7. With no filters, [filter_resources] returns its input as it is, and
    runs no [process]: its only effects are the log records. *)
Theorem filter_resources_no_filters self resources event tr :
  self_filters self = [] →
  filter_resources self resources event tr
  = (Return resources,
     tr ++ prelude self event ++ [LogFiltered (length resources) (length resources)]).
Proof.
  intros Hfs. rewrite filter_resources_eq, Hfs. cbn [for_filters].
  unfold mret, M_ret, ret. by rewrite <- app_assoc.
Qed.

End FilterResources.

(** ** [call_api] *)

Section CallApi.
Context {Resource : Type}.
Implicit Types (self : ResourceManager Resource) (tr : trace).

(** C2. [call_api] returns what [func] returns; turns a [ClientError] whose
    code is among the not-found codes (those given, or else those of the
    resource type) into the result [None] when [ignore_not_found] is set;
    raises the [ClientError] again, as it was, when [ignore_not_found] is
    not set or the code is not among them; and lets every other exception
    through. *)
Theorem call_api_contract self func args kwargs
    (ignore_not_found : bool) (not_found_codes : option (list string)) tr tr' :
  let codes := default (not_found_exceptions (resource_type self)) not_found_codes in
  (∀ v, func args kwargs tr = (Return v, tr') →
        call_api self func args ignore_not_found not_found_codes kwargs tr
        = (Return v, tr'))
  ∧ (∀ code message op,
       func args kwargs tr = (Raise (ClientError code message op), tr') →
       code ∈ codes → ignore_not_found = true →
       call_api self func args ignore_not_found not_found_codes kwargs tr
       = (Return VNone, tr'))
  ∧ (∀ code message op,
       func args kwargs tr = (Raise (ClientError code message op), tr') →
       ignore_not_found = false ∨ code ∉ codes →
       call_api self func args ignore_not_found not_found_codes kwargs tr
       = (Raise (ClientError code message op), tr'))
  ∧ (∀ cls arg,
       func args kwargs tr = (Raise (Exception cls arg), tr') →
       call_api self func args ignore_not_found not_found_codes kwargs tr
       = (Raise (Exception cls arg), tr')).
Proof.
  intros codes. unfold call_api.
  replace (match not_found_codes with
           | Some codes0 => codes0
           | None => not_found_exceptions (resource_type self)
           end) with codes by (by destruct not_found_codes).
  repeat split.
  - intros v ->. done.
  - intros code message op -> Hin ->. by rewrite bool_decide_eq_true_2.
  - intros code message op -> [-> | Hnin]; [done|].
    rewrite (bool_decide_eq_false_2 _ Hnin). by rewrite orb_true_r.
  - intros cls arg ->. done.
Qed.

End CallApi.

(** ** [get_resource_manager] *)

Section Resolve.
Context {Resource : Type}.
Variable load_resources :
  list string → gmap string (gmap string (Klass Resource))
  → gmap string (gmap string (Klass Resource)).
Implicit Types (self : ResourceManager Resource) (w : World Resource).
Implicit Types (klass : Klass Resource) (data : option dict).
Implicit Types (p r rt : string).

Lemma qualified_eq p r : qualified p r = p +:+ String "." r.
Proof. reflexivity. Qed.

Lemma str_contains_qualified p r : str_contains "." (qualified p r) = true.
Proof.
  rewrite qualified_eq. induction p as [|a p IH]; [done|].
  simpl. by destruct (Ascii.eqb a ".").
Qed.

Lemma split_once_qualified p r :
  str_contains "." p = false → split_once "." (qualified p r) = (p, r).
Proof.
  rewrite qualified_eq. induction p as [|a p IH]; [done|].
  simpl. destruct (Ascii.eqb a "."); [done|]. intros Hp. by rewrite IH.
Qed.

Lemma split_resource_type_bare self rt :
  str_contains "." rt = false →
  split_resource_type self rt = (provider_name (policy (ctx self)), rt).
Proof. unfold split_resource_type. by intros ->. Qed.

Lemma split_resource_type_qualified self p r :
  str_contains "." p = false →
  split_resource_type self (qualified p r) = (p, r).
Proof.
  intros Hp. unfold split_resource_type.
  by rewrite str_contains_qualified, split_once_qualified.
Qed.

(** The method, once the specifier is split. *)
Lemma get_resource_manager_eq self rt data w p r :
  split_resource_type self rt = (p, r) →
  get_resource_manager load_resources self rt data w =
  match clouds (loaded load_resources p r w) !! p with
  | None => (Raise (KeyError p), loaded load_resources p r w)
  | Some provider_resources =>
      match provider_resources !! r with
      | None => (Raise (ValueError r), loaded load_resources p r w)
      | Some klass =>
          let definition :=
            if negb (dict_truthy data)
               && String.eqb (source_type self) "config"
               && truthy (config_type (get_model klass))
            then {[ "source" := VStr (source_type self) ]}
            else data_or_empty data in
          (Return (construct klass (ctx self) definition),
           constructed klass (ctx self) definition (loaded load_resources p r w))
      end
  end.
Proof.
  intros Hsplit. unfold get_resource_manager. rewrite Hsplit.
  unfold mbind, M_bind, bind, call_load_resources, cloud_resources.
  fold (loaded load_resources p r w).
  destruct (clouds (loaded load_resources p r w) !! p) as [provider_resources|]; [|done].
  destruct (provider_resources !! r) as [klass|]; [|done].
  by destruct (_ && _).
Qed.

Lemma dict_truthy_false data :
  dict_truthy data = false ↔ data = None ∨ data = Some ∅.
Proof.
  destruct data as [d|]; simpl; [|by split; [left|]].
  split.
  - intros Hd. right. apply negb_false_iff, bool_decide_eq_true in Hd. by subst.
  - intros [?|[= ->]]; [done|]. by rewrite bool_decide_eq_true_2.
Qed.

Lemma data_or_empty_default data : data_or_empty data = default ∅ data.
Proof.
  destruct data as [d|]; [|done]. simpl. by case_bool_decide; subst.
Qed.

(** C3, as the code has it.  When the resource type a specifier names is
    not in the registry of its provider, [get_resource_manager] raises
    [ValueError] with that resource type name: the whole specifier when it
    has no dot, the part after the first dot otherwise.  Nothing is
    constructed: the only effect is the call of [load_resources]. *)
Theorem get_resource_manager_unregistered self rt data w p r provider_resources :
  split_resource_type self rt = (p, r) →
  clouds (loaded load_resources p r w) !! p = Some provider_resources →
  provider_resources !! r = None →
  get_resource_manager load_resources self rt data w
  = (Raise (ValueError r), loaded load_resources p r w)
  ∧ (str_contains "." rt = false → r = rt)
  ∧ (str_contains "." rt = true → r = (split_once "." rt).2).
Proof.
  intros Hsplit Hp Hr.
  rewrite (get_resource_manager_eq _ _ _ _ _ _ Hsplit), Hp, Hr.
  split; [done|]. unfold split_resource_type in Hsplit.
  split; intros Hdot; rewrite Hdot in Hsplit.
  - by simplify_eq.
  - by rewrite Hsplit.
Qed.

(** C4, as the code has it.  When the class is found, the manager is
    constructed with [{source: config}] if the definition is missing or
    empty, the caller's source type is config and the model of the class
    has a config type; in every other case with the definition supplied,
    or an empty one when it is missing. *)
Theorem get_resource_manager_definition self rt data w p r provider_resources klass :
  split_resource_type self rt = (p, r) →
  clouds (loaded load_resources p r w) !! p = Some provider_resources →
  provider_resources !! r = Some klass →
  ∃ definition,
    get_resource_manager load_resources self rt data w
    = (Return (construct klass (ctx self) definition),
       constructed klass (ctx self) definition (loaded load_resources p r w))
    ∧ ((data = None ∨ data = Some ∅) → source_type self = "config" →
       truthy (config_type (get_model klass)) = true →
       definition = config_definition)
    ∧ (¬ ((data = None ∨ data = Some ∅) ∧ source_type self = "config"
          ∧ truthy (config_type (get_model klass)) = true) →
       definition = default ∅ data).
Proof.
  intros Hsplit Hp Hr.
  rewrite (get_resource_manager_eq _ _ _ _ _ _ Hsplit), Hp, Hr.
  eexists. split; [reflexivity|]. split.
  - intros Hdata Hsrc Hcfg. apply dict_truthy_false in Hdata.
    rewrite Hdata, Hsrc, Hcfg. done.
  - intros Hnot. rewrite data_or_empty_default.
    destruct (dict_truthy data) eqn:Hdata; [done|].
    destruct (String.eqb_spec (source_type self) "config") as [Hsrc|]; [|done].
    destruct (truthy (config_type (get_model klass))) eqn:Hcfg; [|done].
    destruct Hnot. by rewrite <- dict_truthy_false.
Qed.

(** C8. From a manager whose policy provider is [P], a bare resource type
    and the same type qualified by [P] resolve alike: the same call of
    [load_resources], the same lookup, the same outcome, be it a manager
    or an exception.  [P] is a provider name, the part of a qualified
    specifier before its first dot, and so has no dot itself. *)
Theorem get_resource_manager_bare_qualified :
  (∀ self r data w,
     str_contains "." r = false →
     str_contains "." (provider_name (policy (ctx self))) = false →
     get_resource_manager load_resources self r data w
     = get_resource_manager load_resources self
         (qualified (provider_name (policy (ctx self))) r) data w)
  ∧ (∀ self data w,
       provider_name (policy (ctx self)) = "aws" →
       get_resource_manager load_resources self "ec2" data w
       = get_resource_manager load_resources self "aws.ec2" data w).
Proof.
  assert (Hgen : ∀ self r data w,
     str_contains "." r = false →
     str_contains "." (provider_name (policy (ctx self))) = false →
     get_resource_manager load_resources self r data w
     = get_resource_manager load_resources self
         (qualified (provider_name (policy (ctx self))) r) data w).
  { intros self r data w Hr Hp.
    rewrite (get_resource_manager_eq self r data w _ _
               (split_resource_type_bare self r Hr)).
    by rewrite (get_resource_manager_eq self (qualified _ r) data w _ _
                  (split_resource_type_qualified self _ r Hp)). }
  split; [done|]. intros self data w Haws.
  rewrite (Hgen self "ec2" data w); [by rewrite Haws | done | by rewrite Haws].
Qed.

(** C10. An empty definition is treated as a missing one: the two calls
    have the same outcome and the same effects, and when the caller reads
    from config and the model of the class has a config type, the call
    with the empty definition constructs the manager with
    [{source: config}], not with the empty definition. *)
Theorem get_resource_manager_empty_definition :
  (∀ self rt w,
     get_resource_manager load_resources self rt (Some ∅) w
     = get_resource_manager load_resources self rt None w)
  ∧ (∀ self rt w p r provider_resources klass,
       split_resource_type self rt = (p, r) →
       clouds (loaded load_resources p r w) !! p = Some provider_resources →
       provider_resources !! r = Some klass →
       source_type self = "config" →
       truthy (config_type (get_model klass)) = true →
       get_resource_manager load_resources self rt (Some ∅) w
       = (Return (construct klass (ctx self) config_definition),
          constructed klass (ctx self) config_definition (loaded load_resources p r w))).
Proof.
  split.
  - intros self rt w.
    destruct (split_resource_type self rt) as [p r] eqn:Hsplit.
    by rewrite !(get_resource_manager_eq _ _ _ _ _ _ Hsplit).
  - intros self rt w p r provider_resources klass Hsplit Hp Hr Hsrc Hcfg.
    rewrite (get_resource_manager_eq _ _ _ _ _ _ Hsplit), Hp, Hr.
    cbn zeta. rewrite Hsrc, Hcfg. done.
Qed.

End Resolve.

(** ** More on [iter_filters] *)

Section IterFiltersMore.
Context {Resource : Type}.
Implicit Types (f g : Filter Resource) (fs : list (Filter Resource)).
Implicit Types (out : list (option (Filter Resource))).

Lemma elem_of_linearize_expand block_end fs (x : option (Filter Resource)) :
  x ∈ linearize block_end fs ↔ ∃ f, f ∈ fs ∧ x ∈ expand block_end f.
Proof.
  unfold linearize. rewrite list_elem_of_In, in_flat_map.
  split; intros (f & Hf & Hx); exists f.
  - by rewrite !list_elem_of_In.
  - by rewrite <- !list_elem_of_In.
Qed.

Lemma linearize_app block_end fs1 fs2 :
  linearize block_end (fs1 ++ fs2) = linearize block_end fs1 ++ linearize block_end fs2.
Proof. apply flat_map_app. Qed.

Lemma linearize_no_operators block_end fs :
  Forall (λ f, is_block f = false) fs → linearize block_end fs = Some <$> fs.
Proof.
  induction 1 as [|f fs Hf _ IH]; [done|].
  rewrite linearize_cons, Hf, IH. done.
Qed.

(** A sequence without boolean operators is yielded as it is, in order,
    whatever [block_end] is and whatever the filters hold as [filters]. *)
Theorem iter_filters_no_operators fs (block_end : bool) (fuel : nat) :
  Forall (λ f, is_block f = false) fs →
  (length fs ≤ fuel)%nat →
  iter_filters fuel fs block_end = Some (Some <$> fs).
Proof.
  intros Hfs Hfuel. rewrite iter_filters_spec.
  - by rewrite linearize_no_operators.
  - rewrite <- length_linearize, linearize_no_operators, length_fmap; done.
Qed.

Lemma filter_markers_expand f :
  filter is_Some (expand true f) = expand false f.
Proof.
  induction f as [t children p IH] using Filter_tree_ind.
  rewrite !expand_eq. rewrite filter_cons_True by done. f_equal.
  cbn [filters]. destruct (is_block _); [|done]. cbv iota.
  rewrite filter_app, !app_nil_r.
  apply Forall_rev in IH. induction IH as [|c cs Hc _ IHcs]; [done|].
  cbn [flat_map]. by rewrite filter_app, Hc, IHcs.
Qed.

Lemma filter_markers_linearize fs :
  filter is_Some (linearize true fs) = linearize false fs.
Proof.
  unfold linearize. induction fs as [|f fs IH]; [done|].
  cbn [flat_map]. by rewrite filter_app, filter_markers_expand, IH.
Qed.

Lemma yields_all_block_end fs :
  (yields_all false fs ≤ yields_all true fs)%nat.
Proof.
  rewrite <- !length_linearize, <- filter_markers_linearize. apply length_filter.
Qed.

(** The markers are all that [block_end] adds: the run without block ends
    is the run with them, markers removed; in particular it has no marker. *)
Theorem iter_filters_markers_removed (self : ResourceManager Resource) (fuel : nat) :
  (yields_all true (self_filters self) ≤ fuel)%nat →
  ∃ marked plain,
    self_iter_filters fuel self true = Some marked
    ∧ self_iter_filters fuel self false = Some plain
    ∧ plain = filter is_Some marked
    ∧ None ∉ plain.
Proof.
  intros Hfuel. unfold self_iter_filters.
  exists (linearize true (self_filters self)), (linearize false (self_filters self)).
  split; [by apply iter_filters_spec|].
  split; [apply iter_filters_spec; pose proof (yields_all_block_end (self_filters self)); lia|].
  split; [by rewrite filter_markers_linearize|].
  rewrite <- filter_markers_linearize. intros [[? ?] _]%list_elem_of_filter. done.
Qed.

Lemma blocks_app (d d' : nat) out1 out2 :
  blocks d out1 = Some d' → blocks d (out1 ++ out2) = blocks d' out2.
Proof.
  revert d. induction out1 as [|[f|] out1 IH]; intros d Hd.
  - simpl in Hd. by simplify_eq.
  - cbn [blocks app] in *. by apply IH.
  - cbn [blocks app] in *. destruct d as [|d]; [done|]. by apply IH.
Qed.

Lemma blocks_expand f : ∀ d : nat, blocks d (expand true f) = Some d.
Proof.
  induction f as [t children p IH] using Filter_tree_ind. intros d.
  rewrite expand_eq. cbn [blocks filters].
  destruct (is_block _); [|done].
  apply Forall_rev in IH.
  assert (Hch : ∀ d' : nat, blocks d' (flat_map (expand true) (rev children)) = Some d').
  { induction IH as [|c cs Hc _ IHcs]; intros d'; [done|].
    cbn [flat_map]. by rewrite (blocks_app d' d' _ _ (Hc d')). }
  by rewrite (blocks_app (S d) (S d) _ _ (Hch (S d))).
Qed.

Lemma blocks_linearize fs (d : nat) : blocks d (linearize true fs) = Some d.
Proof.
  unfold linearize. induction fs as [|f fs IH]; [done|].
  cbn [flat_map]. by rewrite (blocks_app d d _ _ (blocks_expand f d)).
Qed.

(** With [block_end] the markers are well bracketed: each one closes the
    innermost boolean operator still open, and at the end none is open. *)
Theorem iter_filters_blocks_balanced fs (fuel : nat) :
  (yields_all true fs ≤ fuel)%nat →
  ∃ out, iter_filters fuel fs true = Some out ∧ blocks 0 out = Some 0%nat.
Proof.
  intros Hfuel. exists (linearize true fs).
  split; [by apply iter_filters_spec | apply blocks_linearize].
Qed.

Lemma elem_of_rev_list (c : Filter Resource) fs : c ∈ rev fs ↔ c ∈ fs.
Proof. rewrite !list_elem_of_In. symmetry. apply in_rev. Qed.

Lemma head_expand block_end f : Some f ∈ expand block_end f.
Proof. rewrite expand_eq. apply list_elem_of_here. Qed.

Lemma elem_of_expand_inv block_end f (x : option (Filter Resource)) :
  x ∈ expand block_end f →
  x = Some f
  ∨ is_block f = true
    ∧ (x = None ∨ ∃ c, c ∈ filters f ∧ x ∈ expand block_end c).
Proof.
  rewrite expand_eq. intros [->|Hx]%elem_of_cons; [by left|]. right.
  destruct (is_block f); [|by apply elem_of_nil in Hx]. split; [done|].
  apply elem_of_app in Hx as [Hx|Hx].
  - right. apply (elem_of_linearize_expand block_end (rev (filters f))) in Hx
      as (c & Hc & Hx).
    exists c. by rewrite elem_of_rev_list in Hc.
  - left. destruct block_end; [by apply list_elem_of_singleton in Hx|].
    by apply elem_of_nil in Hx.
Qed.

Lemma elem_of_expand_child block_end f c (x : option (Filter Resource)) :
  is_block f = true → c ∈ filters f → x ∈ expand block_end c → x ∈ expand block_end f.
Proof.
  intros Hf Hc Hx. rewrite expand_eq, Hf.
  apply list_elem_of_further, elem_of_app. left.
  apply (elem_of_linearize_expand block_end (rev (filters f))).
  exists c. by rewrite elem_of_rev_list.
Qed.

(** What is yielded below a yielded filter is yielded too. *)
Lemma expand_within block_end f : ∀ a (x : option (Filter Resource)),
  Some a ∈ expand block_end f → x ∈ expand block_end a → x ∈ expand block_end f.
Proof.
  induction f as [t children p IH] using Filter_tree_ind. intros a x Ha Hx.
  apply elem_of_expand_inv in Ha as [[= ->]|[Hf [[=]|(c & Hc & Ha)]]]; [done|].
  apply (elem_of_expand_child _ _ c); [done..|].
  cbn [filters] in Hc. rewrite Forall_forall in IH. by apply (IH c Hc a).
Qed.

Lemma reaches_expand block_end f : ∀ g, Some g ∈ expand block_end f → reaches [f] g.
Proof.
  induction f as [t children p IH] using Filter_tree_ind. intros g Hg.
  apply elem_of_expand_inv in Hg as [[= ->]|[Hf [[=]|(c & Hc & Hg)]]].
  { apply reaches_top, list_elem_of_here. }
  cbn [filters] in Hc. rewrite Forall_forall in IH.
  specialize (IH c Hc g Hg).
  assert (Hreach : reaches [mkFilter t children p] c).
  { apply (reaches_child _ (mkFilter t children p)); [|done..].
    apply reaches_top, list_elem_of_here. }
  clear Hg. induction IH as [g Hg|a g _ IHa Ha Hg].
  - by apply list_elem_of_singleton in Hg as ->.
  - by apply (reaches_child _ a).
Qed.

Lemma elem_of_linearize block_end fs g :
  Some g ∈ linearize block_end fs ↔ reaches fs g.
Proof.
  split.
  - intros (f & Hf & Hg)%elem_of_linearize_expand.
    apply reaches_expand in Hg.
    induction Hg as [g Hg|a g _ IHa Ha Hg].
    + apply list_elem_of_singleton in Hg as ->. by apply reaches_top.
    + by apply (reaches_child _ a).
  - induction 1 as [g Hg|a g _ IHa Ha Hg].
    + apply elem_of_linearize_expand. exists g. split; [done | apply head_expand].
    + apply elem_of_linearize_expand in IHa as (f & Hf & Hin).
      apply elem_of_linearize_expand. exists f. split; [done|].
      apply (expand_within _ _ a); [done|].
      apply (elem_of_expand_child _ _ g); [done.. | apply head_expand].
Qed.

(** The filters yielded are those of the sequence and, below them, the
    children of boolean operators, and no other: what a filter that is not
    a boolean operator holds as [filters] is never yielded through it. *)
Theorem iter_filters_visits fs (block_end : bool) (fuel : nat) :
  (yields_all block_end fs ≤ fuel)%nat →
  ∃ out, iter_filters fuel fs block_end = Some out
         ∧ ∀ g, Some g ∈ out ↔ reaches fs g.
Proof.
  intros Hfuel. exists (linearize block_end fs).
  split; [by apply iter_filters_spec | apply elem_of_linearize].
Qed.

Lemma sublist_linearize block_end fs :
  (Some <$> fs) `sublist_of` linearize block_end fs.
Proof.
  induction fs as [|f fs IH]; [done|].
  rewrite linearize_cons, fmap_cons. apply sublist_skip.
  by apply sublist_inserts_l.
Qed.

(** While the children of an operator come out last declared first, the
    filters of the sequence itself come out in the order of the sequence. *)
Theorem iter_filters_top_level_order fs (block_end : bool) (fuel : nat) :
  (yields_all block_end fs ≤ fuel)%nat →
  ∃ out, iter_filters fuel fs block_end = Some out
         ∧ (Some <$> fs) `sublist_of` out.
Proof.
  intros Hfuel. exists (linearize block_end fs).
  split; [by apply iter_filters_spec | apply sublist_linearize].
Qed.

End IterFiltersMore.

(** ** More on [filter_resources] *)

Section FilterResourcesMore.
Context {Resource : Type}.
Implicit Types (f : Filter Resource) (fs pre post : list (Filter Resource)).
Implicit Types (self : ResourceManager Resource) (resources mid out : list Resource).
Implicit Types (event : option dict) (tr : trace).

Lemma for_filters_app pre post : ∀ resources event tr,
  for_filters (pre ++ post) resources event tr =
  match for_filters pre resources event tr with
  | (Return mid, tr') => for_filters post mid event tr'
  | (Raise e, tr') => (Raise e, tr')
  end.
Proof.
  induction pre as [|f pre IH]; intros resources event tr; [done|].
  destruct resources as [|r rs].
  { rewrite (for_filters_empty ((f :: pre) ++ post)), (for_filters_empty (f :: pre)).
    by rewrite for_filters_empty. }
  rewrite <- app_comm_cons, !for_filters_cons by done.
  destruct (process f _ _ _) as [[out|e] tr1]; [|done]. apply IH.
Qed.

(** The loop over a chain is the loop over its first part followed by the
    loop over the rest on what the first part left, wherever the chain is
    cut; an exception in the first part ends the whole. *)
Theorem for_filters_chain pre post resources event tr :
  for_filters (pre ++ post) resources event tr =
  match for_filters pre resources event tr with
  | (Return mid, tr') => for_filters post mid event tr'
  | (Raise e, tr') => (Raise e, tr')
  end.
Proof. apply for_filters_app. Qed.

(** An exception of a filter's [process] leaves [filter_resources] as it
    is: the filters after it are not run, and the closing log record is
    not written. *)
Theorem filter_resources_exception self pre f post resources mid event tr tr1 tr2 e :
  self_filters self = pre ++ f :: post →
  for_filters pre resources event (tr ++ prelude self event) = (Return mid, tr1) →
  mid ≠ [] →
  process f mid event (tr1 ++ [Subsegment ("filter:" +:+ type f)]) = (Raise e, tr2) →
  filter_resources self resources event tr = (Raise e, tr2).
Proof.
  intros Hfs Hpre Hmid Hraise.
  rewrite filter_resources_eq, Hfs, for_filters_app, Hpre.
  rewrite for_filters_cons by done. by rewrite Hraise.
Qed.

Lemma foldl_keeps_empty (gs : list (list Resource → list Resource)) :
  Forall (λ g, g [] = []) gs → foldl (λ acc g, g acc) [] gs = [].
Proof. induction 1 as [|g gs Hg _ IH]; [done|]. cbn [foldl]. by rewrite Hg. Qed.

Lemma for_filters_computes fs (gs : list (list Resource → list Resource)) :
  Forall2 computes fs gs → Forall (λ g, g [] = []) gs →
  ∀ resources event tr,
    (for_filters fs resources event tr).1 = Return (foldl (λ acc g, g acc) resources gs).
Proof.
  induction 1 as [|f g fs gs Hf _ IH]; intros Hgs resources event tr; [done|].
  destruct resources as [|r rs].
  { rewrite for_filters_empty. by rewrite foldl_keeps_empty. }
  apply Forall_cons in Hgs as [Hg Hgs].
  rewrite for_filters_cons by done. rewrite Hf. cbn [foldl]. by apply IH.
Qed.

(** When every filter computes a function of its input that keeps the
    empty list empty, [filter_resources] returns these functions applied
    one after the other in the order of the chain: leaving the loop early
    changes nothing in the result. *)
Theorem filter_resources_computes self (gs : list (list Resource → list Resource))
    resources event tr :
  Forall2 computes (self_filters self) gs →
  Forall (λ g, g [] = []) gs →
  (filter_resources self resources event tr).1
  = Return (foldl (λ acc g, g acc) resources gs).
Proof.
  intros Hfs Hgs. rewrite filter_resources_eq.
  pose proof (for_filters_computes _ _ Hfs Hgs resources event
                (tr ++ prelude self event)) as H.
  destruct (for_filters _ _ _ _) as [[out|e] tr']; simpl in *; congruence.
Qed.

End FilterResourcesMore.

(** ** More on [call_api] *)

Section CallApiMore.
Context {Resource : Type}.
Implicit Types (self : ResourceManager Resource) (tr : trace).

(** With [ignore_not_found] unset, or with no not-found code to compare
    with, [call_api] is the call of [func] itself. *)
Theorem call_api_transparent self func args kwargs
    (ignore_not_found : bool) (not_found_codes : option (list string)) tr :
  ignore_not_found = false
  ∨ default (not_found_exceptions (resource_type self)) not_found_codes = [] →
  call_api self func args ignore_not_found not_found_codes kwargs tr
  = func args kwargs tr.
Proof.
  intros H. unfold call_api.
  destruct (func args kwargs tr) as [[v|[code message op|cls arg]] tr']; [done| |done].
  destruct H as [->|H]; [done|].
  destruct not_found_codes as [codes|]; simpl in H; rewrite H;
    by rewrite orb_true_r.
Qed.

(** Guarding a guarded call again, with the same settings, changes
    nothing. *)
Theorem call_api_idempotent self func args kwargs
    (ignore_not_found : bool) (not_found_codes : option (list string)) tr :
  call_api self
    (λ args kwargs, call_api self func args ignore_not_found not_found_codes kwargs)
    args ignore_not_found not_found_codes kwargs tr
  = call_api self func args ignore_not_found not_found_codes kwargs tr.
Proof.
  unfold call_api.
  destruct (func args kwargs tr) as [[v|[code message op|cls arg]] tr']; [done| |done].
  by destruct (negb ignore_not_found || negb (bool_decide _)) eqn:Hcase; [rewrite Hcase|].
Qed.

(** [call_api] keeps the effects of [func], raises nothing that [func] did
    not raise, and returns what [func] returned, or else [None] in place of
    a [ClientError] whose code is a not-found code. *)
Theorem call_api_conservative self func args kwargs
    (ignore_not_found : bool) (not_found_codes : option (list string)) tr :
  (call_api self func args ignore_not_found not_found_codes kwargs tr).2
  = (func args kwargs tr).2
  ∧ (∀ e, (call_api self func args ignore_not_found not_found_codes kwargs tr).1 = Raise e →
          (func args kwargs tr).1 = Raise e)
  ∧ (∀ v, (call_api self func args ignore_not_found not_found_codes kwargs tr).1 = Return v →
          (func args kwargs tr).1 = Return v
          ∨ v = VNone ∧ ignore_not_found = true
            ∧ ∃ code message op,
                (func args kwargs tr).1 = Raise (ClientError code message op)
                ∧ code ∈ default (not_found_exceptions (resource_type self)) not_found_codes).
Proof.
  unfold call_api.
  destruct (func args kwargs tr) as [[v|[code message op|cls arg]] tr']; simpl.
  - repeat split; [done|]. intros v' [= ->]. by left.
  - destruct ignore_not_found; simpl.
    + case_bool_decide as Hin; simpl.
      * repeat split; [done|]. intros v [= <-]. right.
        repeat split. exists code, message, op. split; [done|].
        by destruct not_found_codes.
      * repeat split; [by intros e [= <-] | done].
    + repeat split; [by intros e [= <-] | done].
  - repeat split; [by intros e [= <-] | done].
Qed.

End CallApiMore.

(** ** More on [get_resource_manager] *)

Section ResolveMore.
Context {Resource : Type}.
Variable load_resources :
  list string → gmap string (gmap string (Klass Resource))
  → gmap string (gmap string (Klass Resource)).
Implicit Types (self : ResourceManager Resource) (w : World Resource).
Implicit Types (klass : Klass Resource) (data : option dict).
Implicit Types (p r rt : string).

Lemma split_once_join (c : ascii) (s a b : string) :
  str_contains c s = true → split_once c s = (a, b) →
  a +:+ String c b = s ∧ str_contains c a = false.
Proof.
  revert a. induction s as [|x s IH]; intros a Hin Hsplit; [done|].
  simpl in Hin, Hsplit. destruct (Ascii.eqb_spec x c) as [->|Hne].
  - by simplify_eq.
  - destruct (split_once c s) as [a' b'] eqn:Hs. simplify_eq.
    destruct (IH a' Hin eq_refl) as [<- Ha']. simpl.
    split; [done|]. by rewrite (proj2 (Ascii.eqb_neq x c) Hne).
Qed.

(** Splitting a specifier and qualifying a resource type undo each other:
    the provider and resource type of a specifier with a dot put together
    give the specifier, so that [load_resources] is asked for the specifier
    as it was written, and the provider has no dot; a resource type
    qualified by a provider without dot splits into the two, whatever dots
    the resource type has itself. *)
Theorem split_resource_type_round_trip :
  (∀ self rt p r,
     str_contains "." rt = true → split_resource_type self rt = (p, r) →
     qualified p r = rt ∧ str_contains "." p = false)
  ∧ (∀ self p r,
       str_contains "." p = false →
       split_resource_type self (qualified p r) = (p, r)).
Proof.
  split.
  - intros self rt p r Hdot Hsplit. unfold split_resource_type in Hsplit.
    rewrite Hdot in Hsplit. rewrite qualified_eq. by apply split_once_join.
  - intros self p r Hp. unfold split_resource_type.
    by rewrite str_contains_qualified, split_once_qualified.
Qed.



End ResolveMore.

(** * The properties on the sample data *)

(** Runs of [iter_filters] on the sample trees. *)

Example iter_filters_flat :
  iter_filters 2 [sample_f1; sample_f2] false = Some [Some sample_f1; Some sample_f2].
Proof. reflexivity. Qed.

Example iter_filters_nested :
  type <$> omap id (default [] (iter_filters 9 [sample_nested; sample_f1] false))
  = ["or"; "not"; "state"; "age"; "and"; "tag-count"; "value"; "value"].
Proof. reflexivity. Qed.

Example iter_filters_nested_block_end :
  (λ e, from_option type "END" e) <$> default [] (iter_filters 12 [sample_nested; sample_f1] true)
  = ["or"; "not"; "state"; "END"; "age"; "and"; "tag-count"; "value"; "END"; "END"; "value"].
Proof. reflexivity. Qed.

Example iter_filters_out_of_fuel :
  iter_filters 3 [sample_and] true = None.
Proof. reflexivity. Qed.

Lemma iter_filters_linearization_witness :
  iter_filters 4 [sample_and] true = Some (linearize true [sample_and])
  ∧ iter_filters 4 [sample_and] true
    = Some [Some sample_and; Some sample_f2; Some sample_f1; None]
  ∧ iter_filters 3 [sample_and] false
    = Some [Some sample_and; Some sample_f2; Some sample_f1].
Proof.
  destruct (@iter_filters_linearization string) as (Hgen & Hend & Hplain).
  split; [apply Hgen; vm_compute; lia|].
  split; [apply Hend | apply Hplain]; first [reflexivity | lia].
Defined.

Lemma iter_filters_terminates_witness :
  ∃ out, iter_filters 11 [sample_nested; sample_f1] true = Some out
         ∧ length out = yields_all true [sample_nested; sample_f1].
Proof. apply iter_filters_terminates. vm_compute. lia. Defined.

Lemma dropping_narrows name r : narrows (dropping name r).
Proof.
  intros resources event tr out tr' Hp. simpl in Hp. simplify_eq. split.
  - intros x Hx. by apply list_elem_of_filter in Hx as [_ Hx].
  - apply length_filter.
Qed.

Example filter_resources_run :
  filter_resources
    (sample_manager "describe" [dropping "state" "i-2"; dropping "age" "i-3"])
    ["i-1"; "i-2"; "i-3"] (Some {[ "debug" := VBool true ]}) []
  = (Return ["i-1"],
     [LogFiltering ["state"; "age"];
      Subsegment "filter:state"; External "state" (VStr "i-2"); LogApplied "state" 3 2;
      Subsegment "filter:age"; External "age" (VStr "i-3"); LogApplied "age" 2 1;
      LogFiltered 3 1]).
Proof. reflexivity. Qed.

Example filter_resources_raises :
  filter_resources (sample_manager "describe" [dropping "state" "i-2"; broken])
    ["i-1"; "i-2"] None []
  = (Raise (Exception "RuntimeError" "boom"),
     [Subsegment "filter:state"; External "state" (VStr "i-2"); Subsegment "filter:broken"]).
Proof. reflexivity. Qed.

Lemma filter_resources_subset_witness :
  match filter_resources
          (sample_manager "describe" [dropping "state" "i-2"; dropping "age" "i-3"])
          ["i-1"; "i-2"; "i-3"] None [] with
  | (Return out, _) =>
      out ⊆ ["i-1"; "i-2"; "i-3"] ∧ (length out ≤ length ["i-1"; "i-2"; "i-3"])%nat
  | (Raise e, _) =>
      ∃ f input tr1 tr2,
        f ∈ [dropping "state" "i-2"; dropping "age" "i-3"]
        ∧ process f input None tr1 = (Raise e, tr2)
  end.
Proof.
  apply (filter_resources_subset
           (sample_manager "describe" [dropping "state" "i-2"; dropping "age" "i-3"])).
  simpl. repeat (apply List.Forall_cons; [apply dropping_narrows|]). apply List.Forall_nil.
Defined.

Lemma filter_resources_short_circuit_witness :
  filter_resources (sample_manager "describe" [broken]) [] None []
  = (Return [], [LogFiltered 0 0])
  ∧ filter_resources (sample_manager "describe" [dropping "state" "i-1"; broken])
      ["i-1"] None []
    = (Return [], [Subsegment "filter:state"; External "state" (VStr "i-1"); LogFiltered 1 0]).
Proof.
  destruct (@filter_resources_short_circuit string) as [Hstart Hlater]. split.
  - apply (Hstart (sample_manager "describe" [broken]) None []).
  - apply (Hlater (sample_manager "describe" [dropping "state" "i-1"; broken])
             [dropping "state" "i-1"] [broken] ["i-1"] None []
             [Subsegment "filter:state"; External "state" (VStr "i-1")]);
      reflexivity.
Defined.

Lemma filter_resources_no_filters_witness :
  filter_resources (sample_manager "describe" []) ["i-1"; "i-2"] None []
  = (Return ["i-1"; "i-2"], [LogFiltered 2 2]).
Proof.
  apply (filter_resources_no_filters (sample_manager "describe" []) ["i-1"; "i-2"] None []).
  reflexivity.
Defined.

Lemma call_api_contract_witness :
  call_api (sample_manager "describe" []) describe_ok sample_group true None ∅ []
  = (Return (VList sample_group), [External "describe" (VList sample_group)])
  ∧ call_api (sample_manager "describe" []) describe_missing sample_group true None ∅ []
    = (Return VNone, [External "describe" (VList sample_group)])
  ∧ call_api (sample_manager "describe" []) describe_missing sample_group false None ∅ []
    = (Raise sample_missing, [External "describe" (VList sample_group)])
  ∧ call_api (sample_manager "describe" []) describe_missing sample_group true
      (Some ["NoSuchEntity"]) ∅ []
    = (Raise sample_missing, [External "describe" (VList sample_group)])
  ∧ call_api (sample_manager "describe" []) (λ _ _, raise (KeyError "GroupId"))
      sample_group true None ∅ []
    = (Raise (KeyError "GroupId"), []).
Proof.
  pose (self := sample_manager "describe" []).
  pose (seen := [External "describe" (VList sample_group)]).
  split; [|split; [|split; [|split]]].
  - pose proof (call_api_contract self describe_ok sample_group ∅ true None [] seen) as H.
    apply H. reflexivity.
  - pose proof (call_api_contract self describe_missing sample_group ∅ true None [] seen) as H.
    apply (proj1 (proj2 H) "InvalidGroup.NotFound" "no such group" "DescribeSecurityGroups");
      [reflexivity | constructor | reflexivity].
  - pose proof (call_api_contract self describe_missing sample_group ∅ false None [] seen) as H.
    apply (proj1 (proj2 (proj2 H))
             "InvalidGroup.NotFound" "no such group" "DescribeSecurityGroups");
      [reflexivity | by left].
  - pose proof (call_api_contract self describe_missing sample_group ∅ true
                  (Some ["NoSuchEntity"]) [] seen) as H.
    apply (proj1 (proj2 (proj2 H))
             "InvalidGroup.NotFound" "no such group" "DescribeSecurityGroups");
      [reflexivity | right; by intros [=]%list_elem_of_singleton].
  - pose proof (call_api_contract self (λ _ _, raise (KeyError "GroupId")) sample_group ∅
                  true None [] []) as H.
    apply (proj2 (proj2 (proj2 H)) "KeyError" "GroupId"). reflexivity.
Defined.

Example get_resource_manager_run :
  get_resource_manager sample_load_resources
    (sample_manager "describe" []) "security-group" (Some {[ "name" := VStr "default" ]})
    sample_world
  = (Return (construct SecurityGroup sample_ctx {[ "name" := VStr "default" ]}),
     {| clouds := sample_clouds;
        effects := [LoadResources ["aws.security-group"];
                    Construct "SecurityGroup" "aws" {[ "name" := VStr "default" ]}] |}).
Proof. reflexivity. Qed.

Example get_resource_manager_lazy_load :
  (get_resource_manager sample_load_resources
     (sample_manager "describe" []) "aws.ebs" None sample_world).1
  = Return (construct EBS sample_ctx ∅).
Proof. reflexivity. Qed.

Example get_resource_manager_unknown_provider :
  (get_resource_manager sample_load_resources
     (sample_manager "describe" []) "gcp.instance" None sample_world).1
  = Raise (KeyError "gcp").
Proof. reflexivity. Qed.

Lemma get_resource_manager_unregistered_witness :
  get_resource_manager sample_load_resources
    (sample_manager "describe" []) "aws.nosuch" None sample_world
  = (Raise (ValueError "nosuch"),
     {| clouds := sample_clouds; effects := [LoadResources ["aws.nosuch"]] |})
  ∧ get_resource_manager sample_load_resources
      (sample_manager "describe" []) "nosuch" None sample_world
    = (Raise (ValueError "nosuch"),
       {| clouds := sample_clouds; effects := [LoadResources ["aws.nosuch"]] |}).
Proof.
  split.
  - apply (get_resource_manager_unregistered sample_load_resources
             (sample_manager "describe" []) "aws.nosuch" None sample_world
             "aws" "nosuch" {[ "ec2" := EC2; "security-group" := SecurityGroup ]});
      reflexivity.
  - apply (get_resource_manager_unregistered sample_load_resources
             (sample_manager "describe" []) "nosuch" None sample_world
             "aws" "nosuch" {[ "ec2" := EC2; "security-group" := SecurityGroup ]});
      reflexivity.
Defined.

(** For a qualified specifier the exception does not carry the specifier
    as it was requested, but the part after the dot. *)
Lemma get_resource_manager_unregistered_counterexample :
  sample_clouds !! "aws" = Some {[ "ec2" := EC2; "security-group" := SecurityGroup ]}
  ∧ ({[ "ec2" := EC2; "security-group" := SecurityGroup ]} : gmap string (Klass string))
      !! "nosuch" = None
  ∧ (get_resource_manager sample_load_resources
       (sample_manager "describe" []) "aws.nosuch" None sample_world).1
    = Raise (ValueError "nosuch")
  ∧ (get_resource_manager sample_load_resources
       (sample_manager "describe" []) "aws.nosuch" None sample_world).1
    ≠ Raise (ValueError "aws.nosuch").
Proof.
  repeat split; try reflexivity.
  intros H. vm_compute in H. discriminate H.
Qed.

Lemma get_resource_manager_definition_witness :
  ∃ definition,
    get_resource_manager sample_load_resources
      (sample_manager "config" []) "ec2" None sample_world
    = (Return (construct EC2 sample_ctx definition),
       {| clouds := sample_clouds;
          effects := [LoadResources ["aws.ec2"]; Construct "EC2" "aws" definition] |})
    ∧ definition = config_definition.
Proof.
  destruct (get_resource_manager_definition sample_load_resources
              (sample_manager "config" []) "ec2" None sample_world
              "aws" "ec2" {[ "ec2" := EC2; "security-group" := SecurityGroup ]} EC2)
    as (definition & Hrun & Hconfig & _); [reflexivity..|].
  exists definition. split; [exact Hrun|].
  apply Hconfig; [by left | reflexivity | reflexivity].
Defined.

(** A definition that is supplied, but empty, is not passed on as it is
    when the caller reads from config and the class has a config type. *)
Lemma get_resource_manager_definition_counterexample :
  get_resource_manager sample_load_resources
    (sample_manager "config" []) "ec2" (Some ∅) sample_world
  = (Return (construct EC2 sample_ctx config_definition),
     {| clouds := sample_clouds;
        effects := [LoadResources ["aws.ec2"]; Construct "EC2" "aws" config_definition] |})
  ∧ (get_resource_manager sample_load_resources
       (sample_manager "config" []) "ec2" (Some ∅) sample_world).1
    ≠ Return (construct EC2 sample_ctx ∅).
Proof.
  split; [reflexivity|]. intros H.
  apply (f_equal (λ o, match o with
                       | Return manager => data manager !! "source"
                       | Raise _ => None
                       end)) in H.
  vm_compute in H. discriminate H.
Qed.

Lemma get_resource_manager_bare_qualified_witness :
  get_resource_manager sample_load_resources
    (sample_manager "describe" []) "ec2" None sample_world
  = get_resource_manager sample_load_resources
      (sample_manager "describe" []) "aws.ec2" None sample_world
  ∧ get_resource_manager sample_load_resources
      (sample_manager "describe" []) "security-group" (Some {[ "name" := VStr "default" ]})
      sample_world
    = get_resource_manager sample_load_resources
        (sample_manager "describe" []) (qualified "aws" "security-group")
        (Some {[ "name" := VStr "default" ]}) sample_world.
Proof.
  destruct (get_resource_manager_bare_qualified sample_load_resources) as [Hgen Haws].
  split.
  - apply Haws. reflexivity.
  - apply (Hgen (sample_manager "describe" []) "security-group"); reflexivity.
Defined.

Lemma get_resource_manager_empty_definition_witness :
  get_resource_manager sample_load_resources
    (sample_manager "config" []) "aws.ec2" (Some ∅) sample_world
  = (Return (construct EC2 sample_ctx config_definition),
     {| clouds := sample_clouds;
        effects := [LoadResources ["aws.ec2"]; Construct "EC2" "aws" config_definition] |}).
Proof.
  apply (proj2 (get_resource_manager_empty_definition sample_load_resources)
           (sample_manager "config" []) "aws.ec2" sample_world
           "aws" "ec2" {[ "ec2" := EC2; "security-group" := SecurityGroup ]} EC2);
    reflexivity.
Defined.

(** ** The further properties on the sample data *)

Lemma iter_filters_no_operators_witness :
  iter_filters 2 [sample_holder; sample_f2] true
  = Some (Some <$> [sample_holder; sample_f2]).
Proof.
  apply iter_filters_no_operators; [|simpl; lia].
  repeat (apply List.Forall_cons; [reflexivity|]). apply List.Forall_nil.
Defined.

Lemma iter_filters_markers_removed_witness :
  ∃ marked plain,
    self_iter_filters 11 (sample_manager "describe" [sample_nested; sample_f1]) true
    = Some marked
    ∧ self_iter_filters 11 (sample_manager "describe" [sample_nested; sample_f1]) false
      = Some plain
    ∧ plain = filter is_Some marked
    ∧ None ∉ plain.
Proof.
  apply (iter_filters_markers_removed
           (sample_manager "describe" [sample_nested; sample_f1]) 11).
  vm_compute. lia.
Defined.

Lemma iter_filters_blocks_balanced_witness :
  ∃ out, iter_filters 11 [sample_nested; sample_f1] true = Some out
         ∧ blocks 0 out = Some 0%nat.
Proof. apply iter_filters_blocks_balanced. vm_compute. lia. Defined.

Lemma iter_filters_visits_witness :
  ∃ out, iter_filters 8 [sample_nested; sample_f1] false = Some out
         ∧ ∀ g, Some g ∈ out ↔ reaches [sample_nested; sample_f1] g.
Proof. apply iter_filters_visits. vm_compute. lia. Defined.

Lemma iter_filters_top_level_order_witness :
  ∃ out, iter_filters 11 [sample_nested; sample_f1] true = Some out
         ∧ (Some <$> [sample_nested; sample_f1]) `sublist_of` out.
Proof. apply iter_filters_top_level_order. vm_compute. lia. Defined.

Lemma filter_resources_exception_witness :
  filter_resources
    (sample_manager "describe" [dropping "state" "i-2"; broken; dropping "age" "i-1"])
    ["i-1"; "i-2"] None []
  = (Raise (Exception "RuntimeError" "boom"),
     [Subsegment "filter:state"; External "state" (VStr "i-2"); Subsegment "filter:broken"]).
Proof.
  apply (filter_resources_exception
           (sample_manager "describe" [dropping "state" "i-2"; broken; dropping "age" "i-1"])
           [dropping "state" "i-2"] broken [dropping "age" "i-1"]
           ["i-1"; "i-2"] ["i-1"] None []
           [Subsegment "filter:state"; External "state" (VStr "i-2")]);
    [reflexivity | reflexivity | discriminate | reflexivity].
Defined.

Lemma keeping_computes name r : computes (keeping name r) (filter (λ x, x ≠ r)).
Proof. by intros resources event tr. Qed.

Lemma filter_resources_computes_witness :
  (filter_resources (sample_manager "describe" [keeping "state" "i-2"; keeping "age" "i-3"])
     ["i-1"; "i-2"; "i-3"] None []).1
  = Return (foldl (λ acc g, g acc) ["i-1"; "i-2"; "i-3"]
              [filter (λ x, x ≠ "i-2"); filter (λ x, x ≠ "i-3")]).
Proof.
  apply (filter_resources_computes
           (sample_manager "describe" [keeping "state" "i-2"; keeping "age" "i-3"])).
  - simpl. repeat (apply List.Forall2_cons; [apply keeping_computes|]). apply List.Forall2_nil.
  - repeat (apply List.Forall_cons; [reflexivity|]). apply List.Forall_nil.
Defined.

Lemma call_api_transparent_witness :
  call_api (sample_manager "describe" []) describe_missing sample_group false None ∅ []
  = describe_missing sample_group ∅ []
  ∧ call_api (sample_manager "describe" []) describe_missing sample_group true (Some []) ∅ []
    = describe_missing sample_group ∅ [].
Proof.
  split; apply call_api_transparent; [by left | by right].
Defined.

Lemma call_api_conservative_witness :
  (call_api (sample_manager "describe" []) describe_missing sample_group true None ∅ []).1
  = Return VNone
  ∧ ((describe_missing sample_group ∅ []).1 = Return VNone
     ∨ VNone = VNone ∧ true = true
       ∧ ∃ code message op,
           (describe_missing sample_group ∅ []).1 = Raise (ClientError code message op)
           ∧ code ∈ default (not_found_exceptions
                               (resource_type (sample_manager "describe" []))) None).
Proof.
  split; [reflexivity|].
  apply (proj2 (proj2 (call_api_conservative (sample_manager "describe" [])
                         describe_missing sample_group ∅ true None [])) VNone).
  reflexivity.
Defined.

Lemma split_resource_type_round_trip_witness :
  (qualified "k8s" "custom.namespaced" = "k8s.custom.namespaced"
   ∧ str_contains "." "k8s" = false)
  ∧ split_resource_type (sample_manager "describe" []) (qualified "k8s" "custom.namespaced")
    = ("k8s", "custom.namespaced").
Proof.
  destruct (@split_resource_type_round_trip string) as [Hsplit Hjoin]. split.
  - apply (Hsplit (sample_manager "describe" []) "k8s.custom.namespaced"); reflexivity.
  - apply Hjoin. reflexivity.
Defined.


